(** * metaproperties: a shallow embedding of [self_properties] and
    [properties.prop] (src/metaproperties_no_slots.py).

    An instance is modelled by its attribute view: a map from attribute
    names to values (instance dictionary overlaid on the plain data
    attributes of the class; [setattr] writes into it).  Methods are
    looked up by name in the class table, after the instance attributes,
    as Python's [getattr] does for methods (non-data descriptors).
    Python callables (the wrapped default-value function and listener
    methods) are arbitrary functions of the instance attributes and their
    positional arguments: they may mutate the instance and may raise.
    Comparisons that involve objects other than [None], booleans,
    integers, strings and tuples of them (floats, arrays, instances of
    user classes) dispatch to their [__ne__], which may be irreflexive
    (a NaN) or raise: the world supplies their outcome.  Exceptions do not
    roll back the mutations performed before them, so a computation
    returns its outcome together with the final world.  The world also
    carries a log of the attribute writes and calls performed by the
    utility itself. *)

From Stdlib Require Import ZArith Bool List.
From stdpp Require Import base gmap strings list.
Import ListNotations.
Open Scope string_scope.
Open Scope list_scope.

(** ** Python values *)

(** [VObj i] is any other object (a float, a numpy array, an instance of
    a user class), identified by [i]. *)
#[warnings="-register-all"]
Inductive Val : Type :=
| VNone
| VBool (b : bool)
| VInt (z : Z)
| VStr (s : string)
| VTuple (vs : list Val)
| VObj (id : nat).

(** Values built from [None], [bool], [int], [str] and tuples only. *)
Fixpoint builtin (v : Val) : bool :=
  match v with
  | VTuple vs => forallb builtin vs
  | VObj _ => false
  | _ => true
  end.

(** Python [==] on builtin values: [bool] is a subclass of [int], so
    [True == 1]; tuples compare element-wise; values of unrelated types
    are unequal. *)
Definition num_of (v : Val) : option Z :=
  match v with
  | VBool b => Some (Z.b2z b)
  | VInt z => Some z
  | _ => None
  end.

Fixpoint py_eq (a b : Val) {struct a} : bool :=
  match a, b with
  | VNone, VNone => true
  | VStr s, VStr t => String.eqb s t
  | VTuple xs, VTuple ys =>
      (fix go (xs ys : list Val) : bool :=
         match xs, ys with
         | [], [] => true
         | x :: xs', y :: ys' => py_eq x y && go xs' ys'
         | _, _ => false
         end) xs ys
  | _, _ =>
      match num_of a, num_of b with
      | Some x, Some y => Z.eqb x y
      | _, _ => false
      end
  end.

(** Python [!=] on builtin values. *)
Definition py_ne (a b : Val) : bool := negb (py_eq a b).

(** ** Exceptions, callables, worlds *)

Inductive Exc : Type :=
| ValueError (msg : string)
| AttributeError (msg : string)
| TypeError (msg : string).

Abbreviation Attrs := (gmap string Val).

(** A Python callable bound to the instance: receives the instance
    attributes and the positional arguments, returns its outcome and the
    instance attributes after the call. *)
Definition PyCallable : Type := Attrs -> list Val -> (Exc + Val) * Attrs.

Inductive Event : Type :=
| EvSet (name : string) (v : Val)          (* setattr(inst, name, v) *)
| EvCall (name : string) (args : list Val). (* call of a callable *)

(** [ne_obj a b] is the truth value of [a != b] in an [if] when [a] or
    [b] is not builtin: the result of the [__ne__] dispatch, then
    [bool()] of it; either step may raise. *)
Record World : Type := mkWorld {
  attrs : Attrs;
  cls : string -> option PyCallable;
  ne_obj : Val -> Val -> Exc + bool;
  log : list Event
}.

(** The test [if a != b:]. *)
Definition ne_of (w : World) (a b : Val) : Exc + bool :=
  if builtin a && builtin b then inr (py_ne a b) else ne_obj w a b.

(** ** A state and exception monad over the world *)

Definition M (A : Type) : Type := World -> (Exc + A) * World.

Definition ret {A} (a : A) : M A := fun w => (inr a, w).
Definition bind {A B} (m : M A) (k : A -> M B) : M B :=
  fun w => match m w with
           | (inl e, w') => (inl e, w')
           | (inr a, w') => k a w'
           end.
Definition raise {A} (e : Exc) : M A := fun w => (inl e, w).

Notation "x <- m ;; k" := (bind m (fun x => k))
  (at level 90, m at next level, right associativity).
Notation "m ;;; k" := (bind m (fun _ => k))
  (at level 90, right associativity).

(** [if a != b:] evaluates the comparison. *)
Definition py_ne_test (a b : Val) : M bool := fun w => (ne_of w a b, w).

(** [getattr(inst, name, default)] on a data attribute. *)
Definition getattr_default (name : string) (d : Val) : M Val :=
  fun w => (inr (match attrs w !! name with Some v => v | None => d end), w).

(** [setattr(inst, name, v)]. *)
Definition setattr (name : string) (v : Val) : M unit :=
  fun w => (inr tt, mkWorld (<[name := v]> (attrs w)) (cls w) (ne_obj w)
                            (log w ++ [EvSet name v])).

(** What [getattr(inst, name)] finds: an instance data attribute, which
    shadows the class, or a method of the class. *)
Inductive Attr : Type :=
| AData (v : Val)
| AMethod (m : PyCallable).

(** [getattr(inst, name)], resolved when it runs. *)
Definition getattr_method (name : string) : M Attr :=
  fun w => match attrs w !! name with
           | Some v => (inr (AData v), w)
           | None =>
               match cls w name with
               | Some m => (inr (AMethod m), w)
               | None => (inl (AttributeError name), w)
               end
           end.

(** Calling a callable on the instance. *)
Definition call (c : PyCallable) (name : string) (args : list Val) : M Val :=
  fun w => let '(r, a') := c (attrs w) args in
           (r, mkWorld a' (cls w) (ne_obj w) (log w ++ [EvCall name args])).

(** Calling what [getattr] returned: the values of [Val] are not
    callable. *)
Definition call_attr (a : Attr) (name : string) (args : list Val) : M Val :=
  match a with
  | AMethod m => call m name args
  | AData _ => raise (TypeError "object is not callable")
  end.
(** ** [self_properties] *)

Definition not_in (k : string) (exclude : list string) : bool :=
  negb (existsb (String.eqb k) exclude).

Definition keep (exclude : list string) (kv : string * Val) : bool :=
  negb (String.eqb kv.1 "self") && not_in kv.1 exclude.

(** [for (k, v) in scope.items(): if ...: setattr(self, '_' + k, v); args.append(v)] *)
Fixpoint copy_loop (scope : list (string * Val)) (exclude : list string)
    (args : list Val) : M (list Val) :=
  match scope with
  | [] => ret args
  | (k, v) :: rest =>
      if negb (String.eqb k "self") && not_in k exclude
      then setattr ("_" +:+ k) v ;;; copy_loop rest exclude (args ++ [v])
      else copy_loop rest exclude args
  end.

(** The [save_args] branch collects the values and stores the tuple in
    [self._args]; the other branch runs the same loop without it.  The
    scope is a Python [dict]: an association list with distinct keys in
    insertion order. *)
Definition self_properties (scope : list (string * Val))
    (exclude : list string) (save_args : bool) : M unit :=
  if save_args
  then args <- copy_loop scope exclude [] ;; setattr "_args" (VTuple args)
  else copy_loop scope exclude [] ;;; ret tt.

(** ** [properties] and [properties.prop] *)

(** The [listener] argument: [None], a [bool] or a [str]. *)
Inductive Listener : Type :=
| LNone
| LBool (b : bool)
| LStr (s : string).

(** Python truthiness of the [listener] argument. *)
Definition truthy (l : Listener) : bool :=
  match l with
  | LNone => false
  | LBool b => b
  | LStr s => negb (String.eqb s "")
  end.

(** [listener if isinstance(listener, str) else '_changed'] *)
Definition listener_name (l : Listener) : string :=
  match l with
  | LStr s => s
  | _ => "_changed"
  end.

(** The state of a [properties] context object. *)
Record properties : Type := mkProperties {
  _scope : option (list (string * Val));
  _var : option string;
  _auto_dirty : bool
}.

Definition properties_init (scope : list (string * Val)) (var_name : string)
    (auto_dirty : bool) : properties :=
  mkProperties (Some scope) (Some var_name) auto_dirty.

(** [__exit__]: clean references. *)
Definition properties_exit (p : properties) : properties :=
  mkProperties None None (_auto_dirty p).

(** A Python [property] object: getter, optional setter, doc string. *)
Record property : Type := mkProperty {
  fget : M Val;
  fset : option (Val -> M unit);
  pdoc : option string
}.

(** [inst.x] and [inst.x = v] through the descriptor: a property without
    setter raises [AttributeError] on assignment. *)
Definition prop_read (p : property) : M Val := fget p.

Definition prop_assign (p : property) (v : Val) : M unit :=
  match fset p with
  | Some s => s v
  | None => raise (AttributeError "can't set attribute")
  end.

(** A wrapped function [f]: its [__name__], its body (called with the
    instance only) and its [__doc__]. *)
Record pyfunction : Type := mkFunction {
  f_name : string;
  f_body : PyCallable;
  f_doc : option string
}.

(** [lambda inst: getattr(inst, field, f(inst))]: the default argument
    [f(inst)] is evaluated before [getattr] runs. *)
Definition getter (field : string) (f : pyfunction) : M Val :=
  d <- call (f_body f) (f_name f) [] ;;
  getattr_default field d.

(** The setter of an observable property. *)
Definition setter_listener (field lname : string) (auto_dirty : bool)
    (new : Val) : M unit :=
  old <- getattr_default field VNone ;;
  c <- py_ne_test old new ;;
  if c then
    setattr field new ;;;
    (if auto_dirty then setattr "_is_dirty" (VBool true) else ret tt) ;;;
    m <- getattr_method lname ;;
    call_attr m lname [VStr field; old; new] ;;;
    ret tt
  else ret tt.

(** The setter of a non-observable property. *)
Definition setter_plain (field : string) (auto_dirty : bool)
    (new : Val) : M unit :=
  cur <- getattr_default field VNone ;;
  c <- py_ne_test cur new ;;
  if c then
    setattr field new ;;;
    (if auto_dirty then setattr "_is_dirty" (VBool true) else ret tt)
  else ret tt.

(** [decorator(f)] inside [prop]: [Exc] when the declaration raises. *)
Definition decorator (read_only : bool) (listener : Listener)
    (auto_dirty : bool) (f : pyfunction) : Exc + property :=
  let field := "_" +:+ f_name f in
  if read_only && truthy listener then
    inl (ValueError ("property " +:+ field +:+
                     " cannot be read_only and observable at the same time."))
  else
    let setter :=
      if read_only then None
      else if truthy listener
           then Some (setter_listener field (listener_name listener) auto_dirty)
           else Some (setter_plain field auto_dirty) in
    inr (mkProperty (getter field f) setter (f_doc f)).

(** [self.prop(read_only, listener, auto_dirty)]: the effective
    [auto_dirty] is [self._auto_dirty or auto_dirty]; the result is the
    decorator. *)
Definition prop (self : properties) (read_only : bool) (listener : Listener)
    (auto_dirty : bool) : pyfunction -> Exc + property :=
  let auto_dirty := _auto_dirty self || auto_dirty in
  decorator read_only listener auto_dirty.

(** Helpers for statements: the setter's view of the current value of a
    field, and the number of calls of a given name in a log. *)
Definition current (field : string) (w : World) : Val :=
  match attrs w !! field with Some v => v | None => VNone end.

Definition count_calls (name : string) (l : list Event) : nat :=
  length (List.filter (fun e => match e with
                                 | EvCall n _ => String.eqb n name
                                 | _ => false
                                 end) l).

(** Replaying the attribute writes of a log on an instance. *)
Definition apply_event (a : Attrs) (e : Event) : Attrs :=
  match e with
  | EvSet n v => <[n := v]> a
  | EvCall _ _ => a
  end.

(** The write event of one entry copied by [self_properties]. *)
Definition copy_event (kv : string * Val) : Event := EvSet ("_" +:+ kv.1) kv.2.

(** The names of the calls recorded in a log, in order. *)
Definition calls_of (l : list Event) : list string :=
  flat_map (fun e => match e with EvCall n _ => [n] | EvSet _ _ => [] end) l.

(** The world after the setter's writes: the backing field, then the
    dirty flag when auto-dirty is active. *)
Definition written (field : string) (ad : bool) (new : Val) (w : World) : World :=
  let w1 := mkWorld (<[field := new]> (attrs w)) (cls w) (ne_obj w)
                    (log w ++ [EvSet field new]) in
  if ad then mkWorld (<["_is_dirty" := VBool true]> (attrs w1)) (cls w1) (ne_obj w1)
                     (log w1 ++ [EvSet "_is_dirty" (VBool true)])
  else w1.

(** Applying a declaration result to an instance: [inst.x = v]. *)
Definition assign (d : Exc + property) (v : Val) (w : World) : World :=
  match d with
  | inr p => (prop_assign p v w).2
  | inl _ => w
  end.

(** The property produced by a declaration that did not raise. *)
Definition declared (d : Exc + property) : property :=
  match d with
  | inr p => p
  | inl _ => mkProperty (ret VNone) None None
  end.

(** ** Concrete instances used by the witnesses *)

Definition meta : properties := properties_init [] "meta" false.
Definition meta_dirty : properties := properties_init [] "meta" true.

(** [def speed(self): return 0] *)
Definition speed_f : pyfunction :=
  mkFunction "speed" (fun a _ => (inr (VInt 0), a)) (Some "Speed of the car").

(** A default-value function that raises. *)
Definition brand_f : pyfunction :=
  mkFunction "brand" (fun a _ => (inl (ValueError "no default"), a)) (Some "Brand").


(** A listener that only records nothing and returns [None]. *)
Definition quiet : PyCallable := fun a _ => (inr VNone, a).

Definition table (name : string) (m : PyCallable) : string -> option PyCallable :=
  fun n => if String.eqb n name then Some m else None.

Definition ne_nan : Val -> Val -> Exc + bool := fun _ _ => inr true.

(** A fresh instance of a class with method table [t]. *)
Definition fresh (t : string -> option PyCallable) : World := mkWorld ∅ t ne_nan [].

(** An instance with attributes [a] of a class with method table [t]. *)
Definition inst (a : Attrs) (t : string -> option PyCallable) : World :=
  mkWorld a t ne_nan [].

(** The last value written to [n] by the events of a log, if any. *)
Fixpoint last_write (n : string) (l : list Event) : option Val :=
  match l with
  | [] => None
  | e :: l' =>
      match last_write n l' with
      | Some v => Some v
      | None => match e with
                | EvSet n' v => if String.eqb n' n then Some v else None
                | EvCall _ _ => None
                end
      end
  end.

(** The attribute writes performed by [self_properties], in order. *)
Definition sp_events (scope : list (string * Val)) (exclude : list string)
    (save_args : bool) : list Event :=
  map copy_event (List.filter (keep exclude) scope) ++
  (if save_args
   then [EvSet "_args" (VTuple (map snd (List.filter (keep exclude) scope)))]
   else []).


(** The outcome of a value-changing write with a listener: [getattr]
    on the world after the writes, then the call. *)
Definition listener_step (ln : string) (args : list Val) (w1 : World) :
    (Exc + unit) * World :=
  match attrs w1 !! ln with
  | Some _ => (inl (TypeError "object is not callable"), w1)
  | None =>
      match cls w1 ln with
      | None => (inl (AttributeError ln), w1)
      | Some m =>
          let '(r, a') := m (attrs w1) args in
          (match r with inl e => inl e | inr _ => inr tt end,
           mkWorld a' (cls w1) (ne_obj w1) (log w1 ++ [EvCall ln args]))
      end
  end.


(** [VObj 1] stands for [numpy.array([1, 2])]: [old != arr] is an array,
    whose truth value raises [ValueError] in the [if]. *)
Definition arr : Val := VObj 1.
Definition ne_array : Val -> Val -> Exc + bool :=
  fun _ _ => inl (ValueError "The truth value of an array with more than one element is ambiguous").

(** * Basic lemmas *)

Lemma py_eq_refl : forall v, builtin v = true -> py_eq v v = true.
Proof.
  fix IH 1. intros [| b | z | s | vs | i]; simpl; intros H.
  - reflexivity.
  - apply Z.eqb_refl.
  - apply Z.eqb_refl.
  - apply String.eqb_refl.
  - induction vs as [|x xs IHxs]; simpl in *; [reflexivity|].
    apply andb_true_iff in H as [Hx Hxs].
    rewrite (IH x Hx). exact (IHxs Hxs).
  - discriminate.
Qed.

Lemma ne_of_refl w v : builtin v = true -> ne_of w v v = inr false.
Proof.
  intros H. unfold ne_of, py_ne. rewrite H. simpl. rewrite py_eq_refl by exact H.
  reflexivity.
Qed.

Lemma cls_written field ad new w : cls (written field ad new w) = cls w.
Proof. destruct ad; reflexivity. Qed.

Lemma ne_obj_written field ad new w : ne_obj (written field ad new w) = ne_obj w.
Proof. destruct ad; reflexivity. Qed.



Lemma setter_plain_spec field ad new w :
  setter_plain field ad new w =
    match ne_of w (current field w) new with
    | inl e => (inl e, w)
    | inr false => (inr tt, w)
    | inr true => (inr tt, written field ad new w)
    end.
Proof.
  unfold setter_plain, bind, getattr_default, py_ne_test, current.
  destruct (ne_of w _ new) as [e|[|]]; [reflexivity| |reflexivity].
  unfold setattr, written, ret. destruct ad; reflexivity.
Qed.

Lemma setter_listener_spec field ln ad new w :
  setter_listener field ln ad new w =
    match ne_of w (current field w) new with
    | inl e => (inl e, w)
    | inr false => (inr tt, w)
    | inr true => listener_step ln [VStr field; current field w; new]
                    (written field ad new w)
    end.
Proof.
  unfold setter_listener, bind, getattr_default, py_ne_test, current.
  destruct (ne_of w _ new) as [e|[|]]; [reflexivity| |reflexivity].
  unfold setattr, getattr_method, call_attr, call, written, ret, raise, listener_step.
  destruct ad; simpl;
    (destruct (_ !! ln) as [v|]; [reflexivity|]);
    (destruct (cls w ln) as [m|]; [|reflexivity]);
    destruct (m _ _) as [[e|v] a']; reflexivity.
Qed.

Lemma written_field field ad new w :
  (ad = true -> field <> "_is_dirty") ->
  attrs (written field ad new w) !! field = Some new.
Proof.
  intros Hd. unfold written. destruct ad; simpl.
  - rewrite lookup_insert_ne by (intros E; apply Hd; auto).
    apply lookup_insert_eq.
  - apply lookup_insert_eq.
Qed.

Lemma written_frame field ad new w n :
  n <> field -> n <> "_is_dirty" -> attrs (written field ad new w) !! n = attrs w !! n.
Proof.
  intros H1 H2. unfold written. destruct ad; simpl;
    rewrite ?lookup_insert_ne by congruence; reflexivity.
Qed.

Lemma decorator_setter l ad f p :
  decorator false l ad f = inr p ->
  fget p = getter ("_" +:+ f_name f) f /\
  fset p = Some (if truthy l
                 then setter_listener ("_" +:+ f_name f) (listener_name l) ad
                 else setter_plain ("_" +:+ f_name f) ad).
Proof.
  unfold decorator; simpl. intros E. destruct (truthy l); injection E as <-; auto.
Qed.

Lemma decorator_getter self read_only l ad f p :
  prop self read_only l ad f = inr p -> fget p = getter ("_" +:+ f_name f) f.
Proof.
  unfold prop, decorator. destruct (read_only && truthy l); [discriminate|].
  intros E. injection E as <-. reflexivity.
Qed.

Lemma calls_of_app l1 l2 : calls_of (l1 ++ l2) = calls_of l1 ++ calls_of l2.
Proof. unfold calls_of. apply flat_map_app. Qed.

Lemma log_written field ad new w :
  log (written field ad new w) =
    log w ++ [EvSet field new] ++ (if ad then [EvSet "_is_dirty" (VBool true)] else []).
Proof.
  unfold written. destruct ad; simpl; rewrite <- ?app_assoc, ?app_nil_r; reflexivity.
Qed.

Lemma calls_of_written field ad new w :
  calls_of (log (written field ad new w)) = calls_of (log w).
Proof.
  rewrite log_written, !calls_of_app. destruct ad; simpl; rewrite app_nil_r; reflexivity.
Qed.

(** The log of a listener step extends the log of the world it starts
    from by at most one call. *)
Lemma listener_step_log ln args w1 :
  (listener_step ln args w1).2 = w1 \/
  (exists a', (listener_step ln args w1).2 =
     mkWorld a' (cls w1) (ne_obj w1) (log w1 ++ [EvCall ln args])).
Proof.
  unfold listener_step. destruct (_ !! ln); [left; reflexivity|].
  destruct (cls w1 ln) as [m|]; [|left; reflexivity].
  destruct (m _ _) as [r a']. right. exists a'. reflexivity.
Qed.

(** * C1: equal-value assignments are no-ops *)




(** * C2: read-only and observable at once *)

(** C2 (counterexample).  A falsy listener ([False] or [""]) is not
    rejected together with [read_only=True]: the declaration succeeds. *)
Lemma C2_falsy_listener_accepted :
  (exists p, prop meta true (LBool false) false speed_f = inr p) /\
  (exists p, prop meta true (LStr "") false speed_f = inr p).
Proof. split; eexists; reflexivity. Qed.

(** C2 (amended).  With [read_only=True], applying the decorator of
    [prop] to a function raises [ValueError] exactly when the listener is
    truthy ([True] or a non-empty string); the decorator is a function of
    the declaration alone, no instance is involved.  A falsy listener
    ([None], [False], [""]) yields a property without setter. *)
Theorem prop_read_only_listener_raises (self : properties) (l : Listener)
    (ad : bool) (f : pyfunction) :
  (truthy l = true -> exists msg, prop self true l ad f = inl (ValueError msg)) /\
  (truthy l = false -> exists p, prop self true l ad f = inr p /\ fset p = None).
Proof.
  unfold prop, decorator; simpl. split; intros T; rewrite T.
  - eexists; reflexivity.
  - eexists; split; reflexivity.
Qed.

Lemma prop_read_only_listener_raises_witness :
  truthy (LStr "_on_change") = true /\
  exists msg, prop meta true (LStr "_on_change") false speed_f = inl (ValueError msg).
Proof.
  split; [reflexivity|].
  apply (proj1 (prop_read_only_listener_raises meta (LStr "_on_change") false speed_f)).
  reflexivity.
Defined.

(** * C3: the getter *)

(** C3 (code defect).  [getattr(inst, field, f(inst))] evaluates
    [f(inst)] before looking the field up: the default-value function is
    invoked even when the backing field is present, and when it raises
    the read raises although [_brand] holds ["Ford"]. *)
Theorem getter_evaluates_default_eagerly :
  let w := inst {[ "_brand" := VStr "Ford" ]} (fun _ => None) in
  attrs w !! "_brand" = Some (VStr "Ford") /\
  prop_read (declared (prop meta true LNone false brand_f)) w =
    (inl (ValueError "no default"),
     mkWorld (attrs w) (cls w) (ne_obj w) [EvCall "brand" []]).
Proof. split; reflexivity. Qed.

(** * C6: read-only properties have no setter *)

(** C6.  A property declared with [read_only=True] and a falsy (e.g.
    absent) listener has no setter: every assignment raises
    [AttributeError] and leaves the world unchanged. *)
Theorem prop_read_only_assign_fails (self : properties) (l : Listener)
    (ad : bool) (f : pyfunction) :
  truthy l = false ->
  exists p, prop self true l ad f = inr p /\ fset p = None /\
    forall w v, prop_assign p v w = (inl (AttributeError "can't set attribute"), w).
Proof.
  intros T. unfold prop, decorator; simpl. rewrite T.
  eexists; split; [reflexivity|]. split; reflexivity.
Qed.

Lemma prop_read_only_assign_fails_witness :
  truthy LNone = false /\
  exists p, prop meta true LNone false brand_f = inr p /\ fset p = None /\
    forall w v, prop_assign p v w = (inl (AttributeError "can't set attribute"), w).
Proof.
  split; [reflexivity|]. apply prop_read_only_assign_fails. reflexivity.
Defined.

(** * C10: assigning [None] before any write *)

(** C10.  For a non-read-only property and an instance without the
    backing field, assigning [None] returns normally and leaves the world
    unchanged (no field created, no dirty flag, no call); a following read
    still calls the default-value function and, when that function does
    not create the field itself, returns its result. *)
Theorem prop_assign_none_fresh (self : properties) (l : Listener) (ad : bool)
    (f : pyfunction) (p : property) (w : World) :
  prop self false l ad f = inr p ->
  attrs w !! ("_" +:+ f_name f) = None ->
  prop_assign p VNone w = (inr tt, w) /\
  (prop_read p w).2 = mkWorld (f_body f (attrs w) []).2 (cls w) (ne_obj w)
                              (log w ++ [EvCall (f_name f) []]) /\
  ((f_body f (attrs w) []).2 !! ("_" +:+ f_name f) = None ->
   (prop_read p w).1 = (f_body f (attrs w) []).1).
Proof.
  unfold prop. intros E Hn. apply decorator_setter in E as [Hg Hs].
  assert (Hc : ne_of w (current ("_" +:+ f_name f) w) VNone = inr false)
    by (unfold current; rewrite Hn; reflexivity).
  split.
  - unfold prop_assign. rewrite Hs. destruct (truthy l);
      [rewrite setter_listener_spec | rewrite setter_plain_spec]; rewrite Hc; reflexivity.
  - unfold prop_read. rewrite Hg. unfold getter, bind, call, getattr_default.
    destruct (f_body f (attrs w) []) as [[e|d] a'] eqn:Ef; simpl;
      split; try reflexivity.
    intros Ha. rewrite Ha. reflexivity.
Qed.

Lemma prop_assign_none_fresh_witness :
  prop meta false (LStr "_on_change") false speed_f =
    inr (declared (prop meta false (LStr "_on_change") false speed_f)) /\
  attrs (fresh (table "_on_change" quiet)) !! "_speed" = None /\
  prop_assign (declared (prop meta false (LStr "_on_change") false speed_f)) VNone
    (fresh (table "_on_change" quiet)) = (inr tt, fresh (table "_on_change" quiet)).
Proof.
  split; [reflexivity|]. split; [reflexivity|].
  apply (prop_assign_none_fresh meta (LStr "_on_change") false speed_f
           (declared (prop meta false (LStr "_on_change") false speed_f))
           (fresh (table "_on_change" quiet))); reflexivity.
Defined.

(** * C4: the observable setter *)

(** C4.  For a property with a truthy listener, a value-changing
    assignment ([old != new] is [True]) first writes the backing field,
    then (auto-dirty active) [_is_dirty = True], then resolves the
    listener by name on the instance at that point, instance attributes
    first, and calls it, on the instance as written, with the field
    name, the old value ([None] when the field was missing) and the new
    value; when the name resolves to a method [m], [m]'s outcome is the
    assignment's outcome. *)
Theorem prop_listener_change_order (self : properties) (l : Listener) (ad : bool)
    (f : pyfunction) (p : property) (w : World) (new : Val) (m : PyCallable) :
  prop self false l ad f = inr p ->
  truthy l = true ->
  ne_of w (current ("_" +:+ f_name f) w) new = inr true ->
  (getattr_method (listener_name l)
     (written ("_" +:+ f_name f) (_auto_dirty self || ad) new w)).1 = inr (AMethod m) ->
  let field := "_" +:+ f_name f in
  let ad' := _auto_dirty self || ad in
  let w1 := written field ad' new w in
  let args := [VStr field; current field w; new] in
  log w1 = log w ++ [EvSet field new] ++
           (if ad' then [EvSet "_is_dirty" (VBool true)] else []) /\
  attrs w1 = (if ad' then <["_is_dirty" := VBool true]> (<[field := new]> (attrs w))
              else <[field := new]> (attrs w)) /\
  prop_assign p new w =
    (match (m (attrs w1) args).1 with inl e => inl e | inr _ => inr tt end,
     mkWorld (m (attrs w1) args).2 (cls w) (ne_obj w)
             (log w1 ++ [EvCall (listener_name l) args])).
Proof.
  unfold prop. intros E T Hne Hm. apply decorator_setter in E as [_ Hs].
  rewrite T in Hs. cbv zeta. unfold prop_assign. rewrite Hs.
  split; [|split].
  - apply log_written.
  - unfold written. destruct (_ || _); reflexivity.
  - rewrite setter_listener_spec, Hne. unfold listener_step.
    unfold getattr_method in Hm.
    destruct (attrs (written _ _ new w) !! listener_name l); [discriminate|].
    destruct (cls (written _ _ new w) (listener_name l)) as [m0|]; [|discriminate].
    injection Hm as <-. rewrite cls_written, ne_obj_written.
    destruct (m0 _ _) as [r a']. reflexivity.
Qed.

(** The scenario of the spec: [speed] with [listener='_on_change'];
    [speed = 50] on a fresh instance calls [_on_change('_speed', None, 50)]
    and leaves [_speed == 50]; a second [speed = 50] calls nothing. *)
Lemma prop_listener_change_order_witness :
  let d := prop meta false (LStr "_on_change") false speed_f in
  let w0 := fresh (table "_on_change" quiet) in
  (log w0 ++ [EvSet "_speed" (VInt 50)] ++ [] ++
     [EvCall "_on_change" [VStr "_speed"; VNone; VInt 50]] =
   log (assign d (VInt 50) w0) /\
   attrs (assign d (VInt 50) w0) !! "_speed" = Some (VInt 50) /\
   assign d (VInt 50) (assign d (VInt 50) w0) = assign d (VInt 50) w0) /\
  (let field := "_speed" in
   let w1 := written field false (VInt 50) w0 in
   let args := [VStr field; current field w0; VInt 50] in
   log w1 = log w0 ++ [EvSet field (VInt 50)] ++ [] /\
   attrs w1 = <[field := VInt 50]> (attrs w0) /\
   prop_assign (declared d) (VInt 50) w0 =
     (match (quiet (attrs w1) args).1 with inl e => inl e | inr _ => inr tt end,
      mkWorld (quiet (attrs w1) args).2 (cls w0) (ne_obj w0)
              (log w1 ++ [EvCall "_on_change" args]))).
Proof.
  split; [vm_compute; split; [reflexivity|split; reflexivity]|].
  apply (prop_listener_change_order meta (LStr "_on_change") false speed_f
           (declared (prop meta false (LStr "_on_change") false speed_f))
           (fresh (table "_on_change" quiet)) (VInt 50) quiet); reflexivity.
Defined.

(** * C9: the name of the listener method *)

(** C9 (counterexample).  With [listener=""] the listener is falsy: a
    value-changing assignment calls no method, not a method named [""]. *)
Lemma C9_empty_string_listener :
  count_calls ""
    (log (assign (prop meta false (LStr "") false speed_f) (VInt 50)
            (fresh (table "" quiet)))) = 0.
Proof. vm_compute. reflexivity. Qed.

(** C9 (amended).  A value-changing assignment to a property declared
    with [listener=True] calls the method [_changed]; with a non-empty
    string listener it calls exactly the method of that name; with a falsy
    listener (including [""]) it calls nothing.  (The name must resolve
    to a method on the instance as written; see C4.) *)
Theorem prop_listener_method_name (self : properties) (l : Listener) (ad : bool)
    (f : pyfunction) (p : property) (w : World) (new : Val) :
  prop self false l ad f = inr p ->
  ne_of w (current ("_" +:+ f_name f) w) new = inr true ->
  (truthy l = true -> exists m,
     (getattr_method (listener_name l)
        (written ("_" +:+ f_name f) (_auto_dirty self || ad) new w)).1 = inr (AMethod m)) ->
  calls_of (log (prop_assign p new w).2) =
    calls_of (log w) ++ (if truthy l then [listener_name l] else []) /\
  listener_name (LBool true) = "_changed" /\
  (forall s, s <> "" -> truthy (LStr s) = true /\ listener_name (LStr s) = s) /\
  truthy (LStr "") = false.
Proof.
  unfold prop. intros E Hne Hm. apply decorator_setter in E as [_ Hs].
  split; [|split; [reflexivity|split; [|reflexivity]]].
  - unfold prop_assign. rewrite Hs. destruct (truthy l) eqn:T.
    + destruct (Hm eq_refl) as [m Hgm]. unfold getattr_method in Hgm.
      rewrite setter_listener_spec, Hne. unfold listener_step.
      destruct (attrs (written _ _ new w) !! listener_name l); [discriminate|].
      destruct (cls (written _ _ new w) (listener_name l)) as [m0|]; [|discriminate].
      destruct (m0 _ _) as [r a']. cbn [snd log].
      rewrite calls_of_app, calls_of_written. reflexivity.
    + rewrite setter_plain_spec, Hne. cbn [snd].
      rewrite calls_of_written, app_nil_r. reflexivity.
  - intros s Hs'. simpl. split; [|reflexivity].
    apply negb_true_iff, String.eqb_neq. exact Hs'.
Qed.

Lemma prop_listener_method_name_witness :
  ne_of (fresh (table "_changed" quiet))
    (current "_speed" (fresh (table "_changed" quiet))) (VInt 50) = inr true /\
  calls_of (log (prop_assign (declared (prop meta false (LBool true) false speed_f))
                   (VInt 50) (fresh (table "_changed" quiet))).2) =
    calls_of (log (fresh (table "_changed" quiet))) ++
      (if truthy (LBool true) then [listener_name (LBool true)] else []).
Proof.
  split; [reflexivity|].
  apply (prop_listener_method_name meta (LBool true) false speed_f
           (declared (prop meta false (LBool true) false speed_f))
           (fresh (table "_changed" quiet)) (VInt 50)); [reflexivity | reflexivity |].
  intros _. exists quiet. reflexivity.
Defined.

(** * The bulk initializer: helpers *)

Lemma not_in_spec k exclude : not_in k exclude = true <-> ~ In k exclude.
Proof.
  unfold not_in. rewrite negb_true_iff. split.
  - intros H Hin. assert (existsb (String.eqb k) exclude = true) as E
      by (apply existsb_exists; exists k; split; [exact Hin|apply String.eqb_refl]).
    congruence.
  - intros H. destruct (existsb _ _) eqn:E; [|reflexivity].
    apply existsb_exists in E as [x [Hx Ex]]. apply String.eqb_eq in Ex. subst x.
    contradiction.
Qed.

Lemma keep_spec exclude k v : k <> "self" -> ~ In k exclude -> keep exclude (k, v) = true.
Proof.
  intros Hs Hex. unfold keep; simpl. apply andb_true_iff. split.
  - apply negb_true_iff, String.eqb_neq. exact Hs.
  - apply not_in_spec. exact Hex.
Qed.

Lemma prefix_inj (x y : string) : "_" +:+ x = "_" +:+ y -> x = y.
Proof. simpl. intros E. injection E as E. exact E. Qed.

Lemma copy_loop_spec scope exclude args w :
  copy_loop scope exclude args w =
    (inr (args ++ map snd (List.filter (keep exclude) scope)),
     mkWorld (fold_left apply_event (map copy_event (List.filter (keep exclude) scope)) (attrs w))
             (cls w) (ne_obj w) (log w ++ map copy_event (List.filter (keep exclude) scope))).
Proof.
  revert args w. induction scope as [|[k v] rest IH]; intros args w; simpl.
  - rewrite !app_nil_r. destruct w; reflexivity.
  - change (keep exclude (k, v)) with (negb (String.eqb k "self") && not_in k exclude).
    destruct (negb (String.eqb k "self") && not_in k exclude); simpl.
    + unfold bind, setattr. rewrite IH. simpl. rewrite <- !app_assoc. reflexivity.
    + apply IH.
Qed.

Lemma fold_copy_frame (L : list (string * Val)) (a : Attrs) k :
  ~ In k (map fst L) ->
  fold_left apply_event (map copy_event L) a !! ("_" +:+ k) = a !! ("_" +:+ k).
Proof.
  revert a. induction L as [|[k' v'] L IH]; intros a Hk; simpl; [reflexivity|].
  simpl in Hk. rewrite IH by tauto. unfold copy_event; simpl.
  rewrite lookup_insert_ne; [reflexivity|].
  intros E. apply prefix_inj in E. apply Hk. left; exact E.
Qed.

Lemma fold_copy_lookup (scope : list (string * Val)) exclude (a : Attrs) k v :
  NoDup (map fst scope) -> In (k, v) scope -> keep exclude (k, v) = true ->
  fold_left apply_event (map copy_event (List.filter (keep exclude) scope)) a
    !! ("_" +:+ k) = Some v.
Proof.
  revert a. induction scope as [|[k' v'] rest IH]; intros a Hnd Hin Hkeep;
    [destruct Hin|].
  simpl in Hnd. apply NoDup_cons in Hnd as [Hk' Hnd]. rewrite list_elem_of_In in Hk'.
  destruct Hin as [E|Hin].
  - injection E as <- <-. simpl. rewrite Hkeep. simpl.
    rewrite fold_copy_frame.
    + unfold copy_event; simpl. apply lookup_insert_eq.
    + intros Hin. apply Hk'. apply in_map_iff in Hin as [[k0 v0] [<- H0]].
      apply filter_In in H0 as [H0 _]. apply in_map_iff. exists (k0, v0); auto.
  - simpl. destruct (keep exclude (k', v')); simpl; apply IH; auto.
Qed.

(** The attribute ['_' + k] of a kept entry [(k, v)] ends holding [v],
    except [_args] when [save_args] is set. *)
Lemma self_properties_lookup scope exclude save_args w k v :
  NoDup (map fst scope) -> In (k, v) scope -> keep exclude (k, v) = true ->
  (save_args = true -> k <> "args") ->
  attrs (self_properties scope exclude save_args w).2 !! ("_" +:+ k) = Some v.
Proof.
  intros Hnd Hin Hkeep Ha.
  destruct save_args; unfold self_properties, bind, setattr, ret; cbn beta iota;
    rewrite copy_loop_spec; simpl.
  - rewrite lookup_insert_ne.
    + apply fold_copy_lookup; auto.
    + intros E. apply (Ha eq_refl). symmetry. apply (prefix_inj "args" k). exact E.
  - apply fold_copy_lookup; auto.
Qed.

(** * C5: the dirty flag *)

(** C5 (counterexample).  The flag is an ordinary attribute: the bulk
    initializer called with a scope holding [is_dirty = False] (e.g.
    [def __init__(self, is_dirty=False): self_properties(self, locals())])
    clears a set [_is_dirty]. *)
Lemma C5_bulk_init_clears_dirty :
  let w0 := inst {[ "_is_dirty" := VBool true ]} (fun _ => None) in
  attrs w0 !! "_is_dirty" = Some (VBool true) /\
  attrs (self_properties [("self", VNone); ("is_dirty", VBool false)] [] false w0).2
    !! "_is_dirty" = Some (VBool false).
Proof. split; vm_compute; reflexivity. Qed.

(** C5 (amended).  For a property whose declaration or context enables
    auto-dirty, every value-changing assignment writes the backing field
    and then [_is_dirty = True] before anything else happens (so the flag
    is [True] when the listener, if any, is resolved and called, and after
    the assignment when there is no listener).  The setters never write
    any other value to [_is_dirty] (unless the property is itself named
    [is_dirty]).  The flag is not protected against other writes: the
    bulk initializer, given a mapping (distinct keys) with an entry
    [is_dirty = v] that is not excluded, leaves [_is_dirty] holding [v],
    whatever it held before. *)
Theorem prop_auto_dirty_sets_flag (self : properties) (l : Listener) (ad : bool)
    (f : pyfunction) (p : property) :
  prop self false l ad f = inr p ->
  (forall w new,
     (_auto_dirty self || ad) = true ->
     ne_of w (current ("_" +:+ f_name f) w) new = inr true ->
     (exists rest, log (prop_assign p new w).2 =
        log w ++ [EvSet ("_" +:+ f_name f) new; EvSet "_is_dirty" (VBool true)] ++ rest) /\
     attrs (written ("_" +:+ f_name f) true new w) !! "_is_dirty" = Some (VBool true) /\
     (truthy l = false -> attrs (prop_assign p new w).2 !! "_is_dirty" = Some (VBool true))) /\
  (forall w new v,
     f_name f <> "is_dirty" ->
     In (EvSet "_is_dirty" v) (log (prop_assign p new w).2) ->
     In (EvSet "_is_dirty" v) (log w) \/ v = VBool true) /\
  (forall scope exclude save_args w v,
     NoDup (map fst scope) -> In ("is_dirty", v) scope -> ~ In "is_dirty" exclude ->
     attrs (self_properties scope exclude save_args w).2 !! "_is_dirty" = Some v).
Proof.
  unfold prop. intros E. apply decorator_setter in E as [_ Hs].
  set (field := "_" +:+ f_name f) in *.
  set (ad' := _auto_dirty self || ad) in *.
  unfold prop_assign. rewrite Hs. split; [|split].
  - intros w new Ad Hne.
    split; [|split; [apply lookup_insert_eq|]].
    + destruct (truthy l).
      * rewrite setter_listener_spec, Hne.
        destruct (listener_step_log (listener_name l) [VStr field; current field w; new]
                    (written field ad' new w)) as [H|[a' H]];
          rewrite H; cbn [log]; rewrite log_written, Ad.
        -- exists []. simpl. rewrite ?app_nil_r. reflexivity.
        -- eexists. simpl. rewrite <- ?app_assoc. reflexivity.
      * rewrite setter_plain_spec, Hne. cbn [snd].
        rewrite log_written, Ad. exists []. simpl. rewrite ?app_nil_r. reflexivity.
    + intros T. rewrite T, setter_plain_spec, Hne. cbn [snd]. rewrite Ad.
      apply lookup_insert_eq.
  - intros w new v Hn Hin.
    assert (Hw : forall l0, In (EvSet "_is_dirty" v) (log (written field ad' new w) ++ l0) ->
                 l0 = [] \/ (exists n a, l0 = [EvCall n a]) ->
                 In (EvSet "_is_dirty" v) (log w) \/ v = VBool true).
    { intros l0 H Hl0. rewrite log_written, <- !app_assoc in H.
      apply in_app_or in H as [H|H]; [left; exact H|].
      apply in_app_or in H as [H|H].
      - destruct H as [H|[]]. injection H as H1 _. simpl in H1. destruct (Hn H1).
      - apply in_app_or in H as [H|H].
        + destruct ad'; simpl in H; [|contradiction].
          destruct H as [H|[]]. injection H as <-. right; reflexivity.
        + destruct Hl0 as [->|[n [a ->]]]; simpl in H; [contradiction|].
          destruct H as [H|[]]; discriminate. }
    destruct (truthy l);
      [rewrite setter_listener_spec in Hin | rewrite setter_plain_spec in Hin];
      (destruct (ne_of w (current field w) new) as [e|[|]];
       [left; exact Hin| |left; exact Hin]).
    + destruct (listener_step_log (listener_name l) [VStr field; current field w; new]
                  (written field ad' new w)) as [H|[a' H]];
        rewrite H in Hin; cbn [log] in Hin.
      * apply (Hw []); [rewrite app_nil_r; exact Hin|left; reflexivity].
      * apply (Hw _ Hin). right; eauto.
    + cbn [snd] in Hin. apply (Hw []); [rewrite app_nil_r; exact Hin|left; reflexivity].
  - intros scope exclude save_args w v Hnd Hin Hex.
    apply (self_properties_lookup scope exclude save_args w "is_dirty" v Hnd Hin).
    + apply keep_spec; [discriminate|exact Hex].
    + intros _. discriminate.
Qed.

Lemma prop_auto_dirty_sets_flag_witness :
  (_auto_dirty meta_dirty || false) = true /\
  ne_of (fresh (fun _ => None)) (current "_speed" (fresh (fun _ => None))) (VInt 50) =
    inr true /\
  attrs (prop_assign (declared (prop meta_dirty false LNone false speed_f)) (VInt 50)
           (fresh (fun _ => None))).2 !! "_is_dirty" = Some (VBool true) /\
  attrs (self_properties [("self", VNone); ("is_dirty", VBool false)] [] false
           (inst {[ "_is_dirty" := VBool true ]} (fun _ => None))).2
    !! "_is_dirty" = Some (VBool false).
Proof.
  split; [reflexivity|]. split; [reflexivity|].
  destruct (prop_auto_dirty_sets_flag meta_dirty LNone false speed_f
              (declared (prop meta_dirty false LNone false speed_f)) eq_refl)
    as [H [_ Hb]].
  split.
  - apply (H (fresh (fun _ => None)) (VInt 50)); reflexivity.
  - apply Hb.
    + apply (bool_decide_unpack _); vm_compute; reflexivity.
    + simpl; auto.
    + simpl; tauto.
Defined.

(** * C7, C8: the bulk initializer *)

(** C7 (counterexample).  With [save_args=True] and a key ['args'] (as
    in [def __init__(self, *args)]), [self._args] does not hold the
    entry's value [1] but the args tuple [(1,)]. *)
Lemma C7_args_key_overwritten :
  attrs (self_properties [("self", VNone); ("args", VInt 1)] [] true
           (fresh (fun _ => None))).2 !! "_args" = Some (VTuple [VInt 1]).
Proof. vm_compute. reflexivity. Qed.

(** C7 (amended).  [self_properties] returns normally and writes exactly
    the attributes ['_' + k] for the kept entries (key not ['self'], not
    excluded), in mapping order, followed by [_args] when [save_args] is
    set; for a kept entry [(k, v)] of the mapping (a dict: distinct keys),
    the instance ends with ['_' + k] holding [v], except for the key
    ['args'] when [save_args] is set, whose [_args] holds the tuple. *)
Theorem self_properties_copies (scope : list (string * Val))
    (exclude : list string) (save_args : bool) (w : World) :
  let kept := List.filter (keep exclude) scope in
  (self_properties scope exclude save_args w).1 = inr tt /\
  log (self_properties scope exclude save_args w).2 =
    log w ++ map copy_event kept ++
      (if save_args then [EvSet "_args" (VTuple (map snd kept))] else []) /\
  (forall k v, NoDup (map fst scope) -> In (k, v) scope ->
     k <> "self" -> ~ In k exclude -> (save_args = true -> k <> "args") ->
     attrs (self_properties scope exclude save_args w).2 !! ("_" +:+ k) = Some v).
Proof.
  cbv zeta. split; [|split].
  - destruct save_args; unfold self_properties, bind, setattr, ret; cbn beta iota;
      rewrite copy_loop_spec; reflexivity.
  - destruct save_args; unfold self_properties, bind, setattr, ret; cbn beta iota;
      rewrite copy_loop_spec; simpl.
    + rewrite <- app_assoc. reflexivity.
    + rewrite app_nil_r. reflexivity.
  - intros k v Hnd Hin Hs Hex Ha.
    apply self_properties_lookup; auto. apply keep_spec; assumption.
Qed.

Lemma self_properties_copies_witness :
  NoDup (map fst [("self", VNone); ("a", VInt 1); ("b", VInt 2)]) /\
  attrs (self_properties [("self", VNone); ("a", VInt 1); ("b", VInt 2)] [] false
           (fresh (fun _ => None))).2 !! "_a" = Some (VInt 1).
Proof.
  split; [apply (bool_decide_unpack _); vm_compute; reflexivity|].
  apply (self_properties_copies [("self", VNone); ("a", VInt 1); ("b", VInt 2)] [] false
           (fresh (fun _ => None))).
  - apply (bool_decide_unpack _); vm_compute; reflexivity.
  - simpl; auto.
  - discriminate.
  - simpl; tauto.
  - discriminate.
Defined.

(** C8.  With [save_args=True], [self._args] ends as the tuple of the
    kept values in mapping order; e.g. [{'self': obj, 'x': 10, 'y': 20}]
    gives [(10, 20)]. *)
Theorem self_properties_save_args (scope : list (string * Val))
    (exclude : list string) (w : World) :
  attrs (self_properties scope exclude true w).2 !! "_args" =
    Some (VTuple (map snd (List.filter (keep exclude) scope))) /\
  attrs (self_properties [("self", VNone); ("x", VInt 10); ("y", VInt 20)] [] true w).2
    !! "_args" = Some (VTuple [VInt 10; VInt 20]).
Proof.
  assert (H : forall sc ex, attrs (self_properties sc ex true w).2 !! "_args" =
            Some (VTuple (map snd (List.filter (keep ex) sc)))).
  { intros sc ex. unfold self_properties, bind, setattr.
    rewrite copy_loop_spec. simpl. apply lookup_insert_eq. }
  split; [apply H|]. rewrite H. reflexivity.
Qed.

(** * Further properties of the code *)

Lemma prop_read_spec self read_only l ad f p w :
  prop self read_only l ad f = inr p ->
  prop_read p w =
    (match (f_body f (attrs w) []).1 with
     | inl e => inl e
     | inr d => inr (match (f_body f (attrs w) []).2 !! ("_" +:+ f_name f) with
                     | Some v => v | None => d end)
     end,
     mkWorld (f_body f (attrs w) []).2 (cls w) (ne_obj w) (log w ++ [EvCall (f_name f) []])).
Proof.
  intros E. apply decorator_getter in E. unfold prop_read. rewrite E.
  unfold getter, bind, call, getattr_default.
  destruct (f_body f (attrs w) []) as [[e|d] a']; reflexivity.
Qed.

(** X: a read calls the default-value function first; its exception
    propagates whether or not the field is present.  When it returns [d]
    normally without touching the backing field, the read returns the
    backing field's value if present and [d] otherwise; the instance is
    then exactly as the function left it. *)
Theorem prop_read_result (self : properties) (read_only : bool) (l : Listener)
    (ad : bool) (f : pyfunction) (p : property) (w : World) :
  prop self read_only l ad f = inr p ->
  (forall e a', f_body f (attrs w) [] = (inl e, a') -> (prop_read p w).1 = inl e) /\
  (forall d a', f_body f (attrs w) [] = (inr d, a') ->
     a' !! ("_" +:+ f_name f) = attrs w !! ("_" +:+ f_name f) ->
     (prop_read p w).1 = inr (match attrs w !! ("_" +:+ f_name f) with
                              | Some v => v | None => d end) /\
     attrs (prop_read p w).2 = a').
Proof.
  intros E. rewrite (prop_read_spec _ _ _ _ _ _ w E). split.
  - intros e a' Hf. rewrite Hf. reflexivity.
  - intros d a' Hf Ha. rewrite Hf. simpl. rewrite Ha. split; reflexivity.
Qed.

Lemma prop_read_result_witness :
  prop meta true LNone false speed_f = inr (declared (prop meta true LNone false speed_f)) /\
  f_body speed_f {[ "_speed" := VInt 7 ]} [] = (inr (VInt 0), {[ "_speed" := VInt 7 ]}) /\
  (prop_read (declared (prop meta true LNone false speed_f))
     (inst {[ "_speed" := VInt 7 ]} (fun _ => None))).1 = inr (VInt 7).
Proof.
  split; [reflexivity|]. split; [reflexivity|].
  destruct (proj2 (prop_read_result meta true LNone false speed_f
           (declared (prop meta true LNone false speed_f))
           (inst {[ "_speed" := VInt 7 ]} (fun _ => None)) eq_refl)
           (VInt 0) {[ "_speed" := VInt 7 ]} eq_refl eq_refl) as [H _].
  rewrite H. reflexivity.
Defined.

(** X: an assignment to a property without (truthy) listener calls
    nothing and changes no attribute of the instance other than the
    backing field and [_is_dirty].  It returns normally unless the
    comparison [old != new] raises (e.g. a numpy array compared with its
    old value); it then raises that exception and changes nothing. *)
Theorem plain_setter_frame (self : properties) (l : Listener) (ad : bool)
    (f : pyfunction) (p : property) :
  prop self false l ad f = inr p -> truthy l = false ->
  forall w new,
    ((exists b, ne_of w (current ("_" +:+ f_name f) w) new = inr b) ->
       (prop_assign p new w).1 = inr tt) /\
    (forall e, ne_of w (current ("_" +:+ f_name f) w) new = inl e ->
       prop_assign p new w = (inl e, w)) /\
    calls_of (log (prop_assign p new w).2) = calls_of (log w) /\
    (forall n, n <> "_" +:+ f_name f -> n <> "_is_dirty" ->
       attrs (prop_assign p new w).2 !! n = attrs w !! n).
Proof.
  unfold prop. intros E T w new. apply decorator_setter in E as [_ Hs].
  rewrite T in Hs. unfold prop_assign. rewrite Hs, setter_plain_spec.
  split; [|split; [|split]].
  - intros [b Hb]. rewrite Hb. destruct b; reflexivity.
  - intros e He. rewrite He. reflexivity.
  - destruct (ne_of w _ new) as [e|[|]]; try reflexivity. apply calls_of_written.
  - intros n H1 H2. destruct (ne_of w _ new) as [e|[|]]; try reflexivity.
    apply written_frame; assumption.
Qed.

Lemma plain_setter_frame_witness :
  prop meta false LNone false speed_f = inr (declared (prop meta false LNone false speed_f)) /\
  truthy LNone = false /\
  attrs (prop_assign (declared (prop meta false LNone false speed_f)) (VInt 50)
           (inst {[ "_brand" := VStr "Ford" ]} (fun _ => None))).2 !! "_brand" =
    Some (VStr "Ford") /\
  prop_assign (declared (prop meta false LNone false speed_f)) arr
    (mkWorld ∅ (fun _ => None) ne_array []) =
    (inl (ValueError "The truth value of an array with more than one element is ambiguous"),
     mkWorld ∅ (fun _ => None) ne_array []).
Proof.
  split; [reflexivity|]. split; [reflexivity|]. split.
  - destruct (plain_setter_frame meta LNone false speed_f
             (declared (prop meta false LNone false speed_f)) eq_refl eq_refl
             (inst {[ "_brand" := VStr "Ford" ]} (fun _ => None)) (VInt 50))
      as [_ [_ [_ H]]].
    rewrite H; [reflexivity|discriminate|discriminate].
  - destruct (plain_setter_frame meta LNone false speed_f
             (declared (prop meta false LNone false speed_f)) eq_refl eq_refl
             (mkWorld ∅ (fun _ => None) ne_array []) arr)
      as [_ [H _]].
    apply H. reflexivity.
Defined.

Lemma setter_log_shape (self : properties) (l : Listener) (ad : bool)
    (f : pyfunction) (p : property) (w : World) (new : Val) :
  prop self false l ad f = inr p ->
  (prop_assign p new w).2 = w \/
  exists calls, log (prop_assign p new w).2 =
      log (written ("_" +:+ f_name f) (_auto_dirty self || ad) new w) ++ calls /\
    Forall (fun e => exists n a, e = EvCall n a) calls.
Proof.
  unfold prop. intros E. apply decorator_setter in E as [_ Hs].
  unfold prop_assign. rewrite Hs.
  destruct (truthy l); [rewrite setter_listener_spec | rewrite setter_plain_spec];
    (destruct (ne_of w _ new) as [e|[|]]; [left; reflexivity| |left; reflexivity]);
    right.
  - match goal with |- context [listener_step ?n ?a ?w1] =>
      destruct (listener_step_log n a w1) as [H|[a' H]]; rewrite H end.
    + exists []. rewrite app_nil_r. split; [reflexivity|constructor].
    + eexists; split; [reflexivity|]. repeat constructor. eauto.
  - exists []. rewrite app_nil_r. split; [reflexivity|constructor].
Qed.

(** X: when auto-dirty is off (neither the declaration nor the context
    enables it), no setter ever writes [_is_dirty] (for a property not
    itself named [is_dirty]). *)
Theorem setter_no_dirty_when_off (self : properties) (l : Listener) (ad : bool)
    (f : pyfunction) (p : property) :
  prop self false l ad f = inr p ->
  (_auto_dirty self || ad) = false -> f_name f <> "is_dirty" ->
  forall w new v, In (EvSet "_is_dirty" v) (log (prop_assign p new w).2) ->
    In (EvSet "_is_dirty" v) (log w).
Proof.
  intros E Ad Hn w new v Hin.
  destruct (setter_log_shape self l ad f p w new E) as [Hw|[calls [Hl Hc]]].
  - rewrite Hw in Hin. exact Hin.
  - rewrite Hl, log_written, Ad, app_nil_r in Hin.
    apply in_app_or in Hin as [Hin|Hin].
    + apply in_app_or in Hin as [Hin|[Hin|[]]]; [exact Hin|].
      injection Hin as H1 _. simpl in H1. destruct (Hn H1).
    + rewrite List.Forall_forall in Hc. destruct (Hc _ Hin) as [n [a Ha]]. discriminate.
Qed.

Lemma setter_no_dirty_when_off_witness :
  prop meta false (LBool true) false speed_f =
    inr (declared (prop meta false (LBool true) false speed_f)) /\
  (_auto_dirty meta || false) = false /\ f_name speed_f <> "is_dirty" /\
  (In (EvSet "_is_dirty" (VBool true))
     (log (prop_assign (declared (prop meta false (LBool true) false speed_f)) (VInt 50)
             (fresh (table "_changed" quiet))).2) ->
   In (EvSet "_is_dirty" (VBool true)) (log (fresh (table "_changed" quiet)))).
Proof.
  split; [reflexivity|]. split; [reflexivity|]. split; [discriminate|].
  apply (setter_no_dirty_when_off meta (LBool true) false speed_f
           (declared (prop meta false (LBool true) false speed_f)) eq_refl eq_refl).
  discriminate.
Defined.



(** X: reading after an assignment (property without truthy listener,
    default-value function that returns normally and leaves the instance
    alone) gives a value [v] with [v != new] [False].  It is the assigned
    value itself unless the old value already compared equal, in which
    case the old value is kept.  This needs: the comparison does not
    raise; [new != new] is [False] (not so for [nan]); the field is
    present already or [None != new] is [True] (a first assignment of
    [None] creates no field, see C10); auto-dirty does not target the
    backing field itself. *)
Theorem assign_then_read (self : properties) (l : Listener) (ad : bool)
    (f : pyfunction) (p : property) (w : World) (new : Val) :
  prop self false l ad f = inr p -> truthy l = false ->
  (forall a, (f_body f a []).2 = a) ->
  (forall a, exists d, (f_body f a []).1 = inr d) ->
  ((_auto_dirty self || ad) = true -> "_" +:+ f_name f <> "_is_dirty") ->
  (exists b, ne_of w (current ("_" +:+ f_name f) w) new = inr b) ->
  ne_of w new new = inr false ->
  (attrs w !! ("_" +:+ f_name f) <> None \/ ne_of w VNone new = inr true) ->
  exists v, (prop_read p (prop_assign p new w).2).1 = inr v /\ ne_of w v new = inr false /\
    (v = new \/ attrs w !! ("_" +:+ f_name f) = Some v).
Proof.
  intros E T Hpure Htot Hd [b Hb] Hself Hpre.
  pose proof E as E'. unfold prop in E'. apply decorator_setter in E' as [_ Hs].
  rewrite T in Hs.
  set (field := "_" +:+ f_name f) in *.
  assert (Hread : forall w', exists d,
      (prop_read p w').1 = inr (match attrs w' !! field with Some v => v | None => d end)).
  { intros w'. destruct (Htot (attrs w')) as [d Hdv]. exists d.
    rewrite (prop_read_spec _ _ _ _ _ _ w' E), Hdv, Hpure. reflexivity. }
  unfold prop_assign. rewrite Hs, setter_plain_spec, Hb.
  destruct b.
  - cbn [snd]. destruct (Hread (written field (_auto_dirty self || ad) new w)) as [d Hr].
    rewrite written_field in Hr by exact Hd.
    exists new. split; [exact Hr|]. split; [exact Hself|left; reflexivity].
  - cbn [snd]. destruct (attrs w !! field) as [old|] eqn:Eo.
    + destruct (Hread w) as [d Hr]. rewrite Eo in Hr. exists old.
      unfold current in Hb. rewrite Eo in Hb. auto.
    + exfalso. unfold current in Hb. rewrite Eo in Hb.
      destruct Hpre as [H|H]; [exact (H eq_refl)|]. congruence.
Qed.

Lemma assign_then_read_witness :
  prop meta false LNone false speed_f = inr (declared (prop meta false LNone false speed_f)) /\
  exists v, (prop_read (declared (prop meta false LNone false speed_f))
               (prop_assign (declared (prop meta false LNone false speed_f)) (VInt 50)
                  (fresh (fun _ => None))).2).1 = inr v /\
    ne_of (fresh (fun _ => None)) v (VInt 50) = inr false /\
    (v = VInt 50 \/ attrs (fresh (fun _ => None)) !! "_speed" = Some v).
Proof.
  split; [reflexivity|].
  apply (assign_then_read meta LNone false speed_f
           (declared (prop meta false LNone false speed_f)) (fresh (fun _ => None)) (VInt 50)).
  - reflexivity.
  - reflexivity.
  - intros a. reflexivity.
  - intros a. exists (VInt 0). reflexivity.
  - discriminate.
  - exists true. reflexivity.
  - reflexivity.
  - right. reflexivity.
Defined.

Lemma lookup_fold_events (l : list Event) (a : Attrs) n :
  fold_left apply_event l a !! n =
    match last_write n l with Some v => Some v | None => a !! n end.
Proof.
  revert a. induction l as [|e l IH]; intros a; simpl; [reflexivity|].
  rewrite IH. destruct (last_write n l) as [v|]; [reflexivity|].
  destruct e as [n' v|]; simpl; [|reflexivity].
  destruct (String.eqb n' n) eqn:E.
  - apply String.eqb_eq in E as ->. apply lookup_insert_eq.
  - apply String.eqb_neq in E. apply lookup_insert_ne. exact E.
Qed.

Lemma self_properties_world scope exclude save_args w :
  self_properties scope exclude save_args w =
    (inr tt, mkWorld (fold_left apply_event (sp_events scope exclude save_args) (attrs w))
                     (cls w) (ne_obj w) (log w ++ sp_events scope exclude save_args)).
Proof.
  unfold sp_events. destruct save_args;
    unfold self_properties, bind, setattr, ret; cbn beta iota;
    rewrite copy_loop_spec; simpl.
  - rewrite fold_left_app, <- app_assoc. reflexivity.
  - rewrite !app_nil_r. reflexivity.
Qed.

Lemma last_write_none n (l : list Event) :
  (forall v, ~ In (EvSet n v) l) -> last_write n l = None.
Proof.
  induction l as [|e l IH]; intros H; simpl; [reflexivity|].
  rewrite IH by (intros v Hv; apply (H v); right; exact Hv).
  destruct e as [n' v|]; [|reflexivity].
  destruct (String.eqb n' n) eqn:E; [|reflexivity].
  apply String.eqb_eq in E as ->. exfalso. apply (H v). left; reflexivity.
Qed.

(** X: [self_properties] is idempotent on the instance: running it a
    second time with the same arguments leaves the attributes as the first
    run left them. *)
Theorem self_properties_idempotent (scope : list (string * Val))
    (exclude : list string) (save_args : bool) (w : World) :
  attrs (self_properties scope exclude save_args
           (self_properties scope exclude save_args w).2).2 =
  attrs (self_properties scope exclude save_args w).2.
Proof.
  rewrite !self_properties_world. simpl. apply map_eq. intros n.
  rewrite !lookup_fold_events.
  destruct (last_write n (sp_events scope exclude save_args)); reflexivity.
Qed.

Lemma calls_of_copy (L : list (string * Val)) : calls_of (map copy_event L) = [].
Proof. induction L as [|kv L IH]; [reflexivity|exact IH]. Qed.

(** X: [self_properties] returns normally, calls nothing, and leaves
    every attribute alone that is not ['_' + k] for a kept key [k] (not
    ['self'], not excluded) and not [_args] when [save_args] is set: in
    particular it never removes or resets other attributes, and writes
    neither ['_self'] nor an excluded key's attribute, except [_args]
    when [save_args] is set (which it writes even for an excluded key
    ['args']). *)
Theorem self_properties_frame (scope : list (string * Val))
    (exclude : list string) (save_args : bool) (w : World) (n : string) :
  (forall k v, In (k, v) scope -> k <> "self" -> ~ In k exclude -> n <> "_" +:+ k) ->
  (save_args = true -> n <> "_args") ->
  (self_properties scope exclude save_args w).1 = inr tt /\
  calls_of (log (self_properties scope exclude save_args w).2) = calls_of (log w) /\
  attrs (self_properties scope exclude save_args w).2 !! n = attrs w !! n.
Proof.
  intros Hk Ha. rewrite self_properties_world. simpl.
  split; [reflexivity|]. split.
  - unfold sp_events. rewrite !calls_of_app, calls_of_copy.
    destruct save_args; simpl; rewrite ?app_nil_r; reflexivity.
  - rewrite lookup_fold_events, last_write_none; [reflexivity|].
    intros v Hin. unfold sp_events in Hin. apply in_app_or in Hin as [Hin|Hin].
    + apply in_map_iff in Hin as [[k v'] [Ev Hkv]]. unfold copy_event in Ev; simpl in Ev.
      injection Ev as En _. apply filter_In in Hkv as [Hin Hkeep].
      unfold keep in Hkeep; simpl in Hkeep. apply andb_true_iff in Hkeep as [Hs Hx].
      apply (Hk k v' Hin).
      * intros ->. discriminate.
      * apply not_in_spec. exact Hx.
      * symmetry. exact En.
    + destruct save_args; simpl in Hin; [|contradiction].
      destruct Hin as [Hin|[]]. injection Hin as En _. exact (Ha eq_refl (eq_sym En)).
Qed.

Lemma self_properties_frame_witness :
  let w0 := inst {[ "_x" := VInt 5 ]} (fun _ => None) in
  (forall k v, In (k, v) [("self", VNone); ("x", VInt 1)] -> k <> "self" ->
     ~ In k ["x"] -> "_x" <> "_" +:+ k) /\
  attrs (self_properties [("self", VNone); ("x", VInt 1)] ["x"] false w0).2 !! "_x" =
    attrs w0 !! "_x".
Proof.
  cbv zeta.
  assert (H : forall k v, In (k, v) [("self", VNone); ("x", VInt 1)] -> k <> "self" ->
            ~ In k ["x"] -> "_x" <> "_" +:+ k).
  { intros k v [E|[E|[]]] Hs Hx; injection E as <- <-;
      [exfalso; apply Hs; reflexivity|exfalso; apply Hx; left; reflexivity]. }
  split; [exact H|].
  apply (self_properties_frame [("self", VNone); ("x", VInt 1)] ["x"] false
           (inst {[ "_x" := VInt 5 ]} (fun _ => None)) "_x" H).
  discriminate.
Defined.
